(** * Codec core of [@solana/codecs-core]: bounds guards and the
      [createEncoder] / [createDecoder] / [createCodec] factories.

    The development embeds two source modules:
    - the assertions [assertByteArrayIsNotEmptyForCodec] and
      [assertByteArrayHasEnoughBytesForCodec];
    - the codec types, [getEncodedSize] and the three factories.

    Conventions of the embedding.
    - A JavaScript [number] used as a size, a length or an offset is an
      integer of [Z]; fractional values, [NaN] and the infinities are not
      represented.  Arithmetic on them is exact, as it is in the source on
      safe integers ([isSafeInteger]); statements that depend on the exact
      value of a difference carry that bound.
    - A [Uint8Array] is the list of its bytes.  Its length is fixed at
      allocation; code that receives one can ask for its length, load an
      element and store an element, and nothing else.
    - A function that receives a [Uint8Array] and may mutate it or throw
      ([write], [read], the assertions) is a program of the small monad
      [BufProg], run against the contents of that array by [run].
    - An exception is a value of [exn]; a call that may throw returns a
      [Result]. *)

From Stdlib Require Import ZArith List String Strings.Byte Bool Lia.
Import ListNotations.

Local Open Scope Z_scope.

(** ** Exceptions *)

(** The two error codes imported from [@solana/errors], each with the context
    object the source attaches to it. *)
Inductive SolanaError : Type :=
| SOLANA_ERROR__CODECS__CANNOT_DECODE_EMPTY_BYTE_ARRAY (codecDescription : string)
| SOLANA_ERROR__CODECS__INVALID_BYTE_LENGTH
    (bytesLength : Z) (codecDescription : string) (expected : Z).

(** Whatever a JavaScript function may throw: a [SolanaError], the built-in
    [RangeError] and [TypeError], or any other value. *)
Inductive exn : Type :=
| ESolana (e : SolanaError)
| ERangeError
| ETypeError
| EOther (payload : string).

Inductive Result (A : Type) : Type :=
| Ok (a : A)
| Thrown (e : exn).
Arguments Ok {A} a.
Arguments Thrown {A} e.

Definition result_map {A B : Type} (f : A -> B) (r : Result A) : Result B :=
  match r with
  | Ok a => Ok (f a)
  | Thrown e => Thrown e
  end.

(** ** Byte arrays *)

Definition Uint8Array : Type := list byte.

(** [export type Offset = number] *)
Definition Offset : Type := Z.

(** [bytes.length] *)
Definition byteLength (bytes : Uint8Array) : Z := Z.of_nat (List.length bytes).

(** [bytes[i]]: [undefined] (here [None]) outside the array. *)
Definition getIndex (bytes : Uint8Array) (i : Z) : option byte :=
  if i <? 0 then None else nth_error bytes (Z.to_nat i).

Fixpoint setNth (bytes : Uint8Array) (n : nat) (b : byte) : Uint8Array :=
  match bytes, n with
  | [], _ => []
  | _ :: rest, O => b :: rest
  | x :: rest, S n' => x :: setNth rest n' b
  end.

(** [bytes[i] = b]: a store outside the array is ignored. *)
Definition setIndex (bytes : Uint8Array) (i : Z) (b : byte) : Uint8Array :=
  if i <? 0 then bytes else setNth bytes (Z.to_nat i) b.

(** The largest length [ToIndex] accepts, 2^53 - 1. *)
Definition MAX_SAFE_INTEGER : Z := 9007199254740991.

(** [Number.isSafeInteger(n)] for an integer [n]: between -(2^53 - 1) and
    2^53 - 1, where the source's arithmetic on integers is exact. *)
Definition isSafeInteger (n : Z) : Prop :=
  - MAX_SAFE_INTEGER <= n <= MAX_SAFE_INTEGER.

(** [new Uint8Array(n)]: a fresh array of [n] zero bytes; a [RangeError] when
    [n] is negative or above 2^53 - 1. *)
Definition newUint8Array (n : Z) : Result Uint8Array :=
  if (n <? 0) || (MAX_SAFE_INTEGER <? n)
  then Thrown ERangeError
  else Ok (repeat x00 (Z.to_nat n)).

(** ** Programs over one byte array *)

(** The operations a function can perform on the [Uint8Array] it was handed,
    in continuation style: finish with a value, throw, read the length, load
    an element, store an element. *)
Inductive BufProg (A : Type) : Type :=
| Ret (a : A)
| Throw (e : exn)
| GetLength (k : Z -> BufProg A)
| Load (i : Z) (k : option byte -> BufProg A)
| Store (i : Z) (b : byte) (k : BufProg A).
Arguments Ret {A} a.
Arguments Throw {A} e.
Arguments GetLength {A} k.
Arguments Load {A} i k.
Arguments Store {A} i b k.

Fixpoint bind {A B : Type} (p : BufProg A) (f : A -> BufProg B) : BufProg B :=
  match p with
  | Ret a => f a
  | Throw e => Throw e
  | GetLength k => GetLength (fun n => bind (k n) f)
  | Load i k => Load i (fun ob => bind (k ob) f)
  | Store i b k => Store i b (bind k f)
  end.

Notation "x <- p ;; q" := (bind p (fun x => q))
  (at level 61, p at next level, right associativity).

(** Running a program against the contents of the array gives its outcome and
    the contents it leaves behind. *)
Fixpoint run {A : Type} (p : BufProg A) (bytes : Uint8Array)
  : Result A * Uint8Array :=
  match p with
  | Ret a => (Ok a, bytes)
  | Throw e => (Thrown e, bytes)
  | GetLength k => run (k (byteLength bytes)) bytes
  | Load i k => run (k (getIndex bytes i)) bytes
  | Store i b k => run k (setIndex bytes i b)
  end.

(** ** Bounds guards *)

(** The guards subtract the offset from the length.  The difference is the
    source's whenever the offset is a safe integer and, for the length guard,
    the expected length is one too: a difference small enough to decide a
    throw, or to be carried by one, is then below 2^53 in size and is not
    rounded. *)

(** [offset = 0] in a parameter list: an omitted argument takes the default. *)
Definition defaultOffset (offset : option Offset) : Offset :=
  match offset with
  | Some o => o
  | None => 0
  end.

Definition assertByteArrayIsNotEmptyForCodec
  (codecDescription : string) (offset : option Offset) : BufProg unit :=
  let offset := defaultOffset offset in
  GetLength (fun length =>
    if length - offset <=? 0
    then Throw (ESolana
           (SOLANA_ERROR__CODECS__CANNOT_DECODE_EMPTY_BYTE_ARRAY codecDescription))
    else Ret tt).

Definition assertByteArrayHasEnoughBytesForCodec
  (codecDescription : string) (expected : Z) (offset : option Offset)
  : BufProg unit :=
  let offset := defaultOffset offset in
  GetLength (fun length =>
    let bytesLength := length - offset in
    if bytesLength <? expected
    then Throw (ESolana
           (SOLANA_ERROR__CODECS__INVALID_BYTE_LENGTH
              bytesLength codecDescription expected))
    else Ret tt).

(** ** JavaScript objects and [Object.freeze] *)

(** An object is its properties together with the flag [Object.freeze] sets.
    [A] is the record of the properties. *)
Record JsObject (A : Type) : Type := mkJsObject {
  props : A;
  frozen : bool
}.
Arguments mkJsObject {A} props frozen.
Arguments props {A} j.
Arguments frozen {A} j.

(** An object literal [{ ... }] is born extensible and writable. *)
Definition objectLiteral {A : Type} (a : A) : JsObject A :=
  mkJsObject a false.

(** [Object.freeze(o)] returns [o] with every own property made read-only. *)
Definition Object_freeze {A : Type} (o : JsObject A) : JsObject A :=
  mkJsObject (props o) true.

(** One attempt to alter the properties of [o] by an assignment or a
    [delete], given as the change [upd] it would make.  On a frozen object the
    attempt changes nothing; it throws a [TypeError] in strict-mode code and
    is silently dropped otherwise. *)
Definition alter {A : Type} (strict : bool) (upd : A -> A) (o : JsObject A)
  : Result unit * JsObject A :=
  if frozen o
  then ((if strict then Thrown ETypeError else Ok tt), o)
  else (Ok tt, mkJsObject (upd (props o)) false).

(** A series of attempts, each made whether or not the one before threw. *)
Fixpoint alterAll {A : Type} (strict : bool) (upds : list (A -> A))
  (o : JsObject A) : JsObject A :=
  match upds with
  | [] => o
  | upd :: rest => alterAll strict rest (snd (alter strict upd o))
  end.

(** ** Codec types *)

(** [write(value, bytes, offset)]: a program over [bytes] giving the next
    offset. *)
Definition WriteFn (T : Type) : Type := T -> Offset -> BufProg Offset.

(** [read(bytes, offset)]: a program over [bytes] giving the value and the next
    offset. *)
Definition ReadFn (T : Type) : Type := Offset -> BufProg (T * Offset).

(** [EncoderSize<T>]: the union discriminated by [fixedSize] being a number or
    [null].  As declared, the fixed variant has no field besides [fixedSize],
    and the variable variant has an optional [maxSize] and a [variableSize]. *)
Module EncoderSize.
Inductive t (T : Type) : Type :=
| FixedSized (fixedSize : Z)
| VariableSized (maxSize : option Z) (variableSize : T -> Z).
Arguments FixedSized {T} fixedSize.
Arguments VariableSized {T} maxSize variableSize.

(** The three property reads; [None] is [null] for [fixedSize] and
    [undefined] for the other two. *)
Definition fixedSize {T : Type} (s : t T) : option Z :=
  match s with
  | FixedSized n => Some n
  | VariableSized _ _ => None
  end.

Definition maxSize {T : Type} (s : t T) : option Z :=
  match s with
  | FixedSized _ => None
  | VariableSized m _ => m
  end.

Definition variableSize {T : Type} (s : t T) : option (T -> Z) :=
  match s with
  | FixedSized _ => None
  | VariableSized _ f => Some f
  end.
End EncoderSize.

(** [DecoderSize] *)
Module DecoderSize.
Inductive t : Type :=
| FixedSized (fixedSize : Z)
| VariableSized (maxSize : option Z).

Definition fixedSize (s : t) : option Z :=
  match s with
  | FixedSized n => Some n
  | VariableSized _ => None
  end.

Definition maxSize (s : t) : option Z :=
  match s with
  | FixedSized _ => None
  | VariableSized m => m
  end.
End DecoderSize.

(** [Encoder<T>] *)
Module Encoder.
Record t (T : Type) : Type := mk {
  size : EncoderSize.t T;
  encode : T -> Result Uint8Array;
  write : WriteFn T
}.
Arguments mk {T} size encode write.
Arguments size {T} t.
Arguments encode {T} t value.
Arguments write {T} t value offset.
End Encoder.

(** [EncoderSize<T> & Omit<Encoder<T>, 'encode'>], the argument of
    [createEncoder]. *)
Module EncoderInput.
Record t (T : Type) : Type := mk {
  size : EncoderSize.t T;
  write : WriteFn T
}.
Arguments mk {T} size write.
Arguments size {T} t.
Arguments write {T} t value offset.
End EncoderInput.

(** [Decoder<T>]; [decode] takes the optional offset. *)
Module Decoder.
Record t (T : Type) : Type := mk {
  size : DecoderSize.t;
  decode : option Offset -> BufProg T;
  read : ReadFn T
}.
Arguments mk {T} size decode read.
Arguments size {T} t.
Arguments decode {T} t offset.
Arguments read {T} t offset.
End Decoder.

(** [DecoderSize & Omit<Decoder<T>, 'decode'>], the argument of
    [createDecoder]. *)
Module DecoderInput.
Record t (T : Type) : Type := mk {
  size : DecoderSize.t;
  read : ReadFn T
}.
Arguments mk {T} size read.
Arguments size {T} t.
Arguments read {T} t offset.
End DecoderInput.

(** [Codec<From, To> = Encoder<From> & Decoder<To>] *)
Module Codec.
Record t (From To : Type) : Type := mk {
  size : EncoderSize.t From;
  decode : option Offset -> BufProg To;
  encode : From -> Result Uint8Array;
  read : ReadFn To;
  write : WriteFn From
}.
Arguments mk {From To} size decode encode read write.
Arguments size {From To} t.
Arguments decode {From To} t offset.
Arguments encode {From To} t value.
Arguments read {From To} t offset.
Arguments write {From To} t value offset.
End Codec.

(** [EncoderSize<From> & Omit<Codec<From, To>, 'encode' | 'decode'>], the
    argument of [createCodec]. *)
Module CodecInput.
Record t (From To : Type) : Type := mk {
  size : EncoderSize.t From;
  read : ReadFn To;
  write : WriteFn From
}.
Arguments mk {From To} size read write.
Arguments size {From To} t.
Arguments read {From To} t offset.
Arguments write {From To} t value offset.
End CodecInput.

(** ** Size computation and the factories *)

Definition getEncodedSize {T : Type} (value : T) (encoder : EncoderSize.t T) : Z :=
  match encoder with
  | EncoderSize.FixedSized fixedSize => fixedSize
  | EncoderSize.VariableSized _ variableSize => variableSize value
  end.

(** [offset ?? 0] *)
Definition nullishOr0 (offset : option Offset) : Offset :=
  match offset with
  | Some o => o
  | None => 0
  end.

Definition createEncoder {T : Type} (encoder : EncoderInput.t T)
  : JsObject (Encoder.t T) :=
  Object_freeze (objectLiteral {|
    Encoder.size :=
      match EncoderInput.size encoder with
      | EncoderSize.VariableSized maxSize variableSize =>
          EncoderSize.VariableSized maxSize variableSize
      | EncoderSize.FixedSized fixedSize => EncoderSize.FixedSized fixedSize
      end;
    Encoder.encode := fun value =>
      match newUint8Array (getEncodedSize value (EncoderInput.size encoder)) with
      | Thrown e => Thrown e
      | Ok bytes =>
          match run (EncoderInput.write encoder value 0) bytes with
          | (Thrown e, _) => Thrown e
          | (Ok _, bytes) => Ok bytes
          end
      end;
    Encoder.write := EncoderInput.write encoder
  |}).

Definition createDecoder {T : Type} (decoder : DecoderInput.t T)
  : JsObject (Decoder.t T) :=
  Object_freeze (objectLiteral {|
    Decoder.size :=
      match DecoderInput.size decoder with
      | DecoderSize.VariableSized maxSize => DecoderSize.VariableSized maxSize
      | DecoderSize.FixedSized fixedSize => DecoderSize.FixedSized fixedSize
      end;
    Decoder.decode := fun offset =>
      r <- DecoderInput.read decoder (nullishOr0 offset) ;; Ret (fst r);
    Decoder.read := DecoderInput.read decoder
  |}).

Definition createCodec {From To : Type} (codec : CodecInput.t From To)
  : JsObject (Codec.t From To) :=
  Object_freeze (objectLiteral {|
    Codec.size :=
      match CodecInput.size codec with
      | EncoderSize.VariableSized maxSize variableSize =>
          EncoderSize.VariableSized maxSize variableSize
      | EncoderSize.FixedSized fixedSize => EncoderSize.FixedSized fixedSize
      end;
    Codec.decode := fun offset =>
      r <- CodecInput.read codec (nullishOr0 offset) ;; Ret (fst r);
    Codec.encode := fun value =>
      match newUint8Array (getEncodedSize value (CodecInput.size codec)) with
      | Thrown e => Thrown e
      | Ok bytes =>
          match run (CodecInput.write codec value 0) bytes with
          | (Thrown e, _) => Thrown e
          | (Ok _, bytes) => Ok bytes
          end
      end;
    Codec.read := CodecInput.read codec;
    Codec.write := CodecInput.write codec
  |}).

(** ** A concrete codec: one byte holding a boolean *)

Definition booleanWrite : WriteFn bool := fun value offset =>
  Store offset (if value then x01 else x00) (Ret (offset + 1)).

Definition booleanRead : ReadFn bool := fun offset =>
  _ <- assertByteArrayIsNotEmptyForCodec "boolean" (Some offset) ;;
  _ <- assertByteArrayHasEnoughBytesForCodec "boolean" 1 (Some offset) ;;
  Load offset (fun ob =>
    match ob with
    | Some b => Ret (negb (Byte.eqb b x00), offset + 1)
    | None => Throw ETypeError
    end).

Definition booleanCodecInput : CodecInput.t bool bool :=
  CodecInput.mk (EncoderSize.FixedSized 1) booleanRead booleanWrite.


(** ** A concrete variable-size encoder: one byte per boolean of a list *)

Fixpoint booleansWrite (value : list bool) (offset : Offset) : BufProg Offset :=
  match value with
  | [] => Ret offset
  | b :: rest =>
      Store offset (if b then x01 else x00) (booleansWrite rest (offset + 1))
  end.

Definition booleansEncoderInput : EncoderInput.t (list bool) :=
  EncoderInput.mk
    (EncoderSize.VariableSized None (fun value => Z.of_nat (List.length value)))
    booleansWrite.

(** What a codec author owes: for every valid [v], allocating
    [getEncodedSize v] bytes succeeds, [write] fills them without throwing, and
    [read] at offset 0 of the filled array gives a value equivalent to [v]. *)
Definition consistentPair {From To : Type} (codec : CodecInput.t From To)
  (valid : From -> Prop) (equiv : From -> To -> Prop) : Prop :=
  forall v, valid v ->
    exists zeros next filled,
      newUint8Array (getEncodedSize v (CodecInput.size codec)) = Ok zeros /\
      run (CodecInput.write codec v 0) zeros = (Ok next, filled) /\
      exists w next' after,
        run (CodecInput.read codec 0) filled = (Ok (w, next'), after) /\
        equiv v w.

(** A program throws on [bytes] when its outcome there is an exception. *)
Definition throwsOn {A : Type} (p : BufProg A) (bytes : Uint8Array) : Prop :=
  exists e, fst (run p bytes) = Thrown e.

(** Every store the program can perform, whatever it loads, lands at an index
    [i] with [lo <= i < hi]. *)
Fixpoint storesWithin {A : Type} (p : BufProg A) (lo hi : Z) : Prop :=
  match p with
  | Ret _ => True
  | Throw _ => True
  | GetLength k => forall n, storesWithin (k n) lo hi
  | Load _ k => forall ob, storesWithin (k ob) lo hi
  | Store i _ k => lo <= i < hi /\ storesWithin k lo hi
  end.

(** * Properties *)

(** ** Byte arrays and programs *)

Lemma setNth_length (bytes : Uint8Array) (n : nat) (b : byte) :
  List.length (setNth bytes n b) = List.length bytes.
Proof.
  revert n; induction bytes as [|x rest IH]; intros [|n]; simpl; auto.
Qed.

Lemma setIndex_length (bytes : Uint8Array) (i : Z) (b : byte) :
  byteLength (setIndex bytes i b) = byteLength bytes.
Proof.
  unfold setIndex, byteLength.
  destruct (i <? 0); [reflexivity|].
  now rewrite setNth_length.
Qed.

(** No program changes the length of the array it runs against. *)
Lemma run_length {A : Type} (p : BufProg A) :
  forall bytes, byteLength (snd (run p bytes)) = byteLength bytes.
Proof.
  induction p as [a|e|k IH|i k IH|i b k IH]; intros bytes; simpl.
  - reflexivity.
  - reflexivity.
  - apply IH.
  - apply IH.
  - rewrite IH. apply setIndex_length.
Qed.

Lemma run_bind {A B : Type} (p : BufProg A) (f : A -> BufProg B) :
  forall bytes,
    run (bind p f) bytes =
    match run p bytes with
    | (Ok a, bytes') => run (f a) bytes'
    | (Thrown e, bytes') => (Thrown e, bytes')
    end.
Proof.
  induction p as [a|e|k IH|i k IH|i b k IH]; intros bytes; simpl; auto.
Qed.

Lemma newUint8Array_Ok (n : Z) (bytes : Uint8Array) :
  newUint8Array n = Ok bytes ->
  bytes = repeat x00 (Z.to_nat n) /\ byteLength bytes = n.
Proof.
  unfold newUint8Array.
  destruct ((n <? 0) || (MAX_SAFE_INTEGER <? n)) eqn:E; [discriminate|].
  intros H; injection H as <-.
  apply orb_false_elim in E as [E _]. apply Z.ltb_ge in E.
  split; [reflexivity|].
  unfold byteLength. rewrite repeat_length. lia.
Qed.

Lemma newUint8Array_in_range (n : Z) :
  0 <= n <= MAX_SAFE_INTEGER ->
  newUint8Array n = Ok (repeat x00 (Z.to_nat n)).
Proof.
  intros [H0 H1]. unfold newUint8Array.
  replace (n <? 0) with false by (symmetry; apply Z.ltb_ge; lia).
  replace (MAX_SAFE_INTEGER <? n) with false by (symmetry; apply Z.ltb_ge; lia).
  reflexivity.
Qed.

Lemma newUint8Array_Thrown (n : Z) (e : exn) :
  newUint8Array n = Thrown e ->
  e = ERangeError /\ (n < 0 \/ MAX_SAFE_INTEGER < n).
Proof.
  unfold newUint8Array.
  destruct ((n <? 0) || (MAX_SAFE_INTEGER <? n)) eqn:E; [|discriminate].
  intros H; injection H as <-. split; [reflexivity|].
  apply orb_true_iff in E as [E|E]; apply Z.ltb_lt in E; auto.
Qed.

(** ** The guards *)

Lemma run_assertByteArrayIsNotEmptyForCodec
  (codecDescription : string) (offset : option Offset) (bytes : Uint8Array) :
  run (assertByteArrayIsNotEmptyForCodec codecDescription offset) bytes =
  (if byteLength bytes - defaultOffset offset <=? 0
   then Thrown (ESolana
          (SOLANA_ERROR__CODECS__CANNOT_DECODE_EMPTY_BYTE_ARRAY codecDescription))
   else Ok tt, bytes).
Proof.
  unfold assertByteArrayIsNotEmptyForCodec; simpl.
  destruct (byteLength bytes - defaultOffset offset <=? 0); reflexivity.
Qed.

Lemma run_assertByteArrayHasEnoughBytesForCodec
  (codecDescription : string) (expected : Z) (offset : option Offset)
  (bytes : Uint8Array) :
  run (assertByteArrayHasEnoughBytesForCodec codecDescription expected offset)
      bytes =
  (if byteLength bytes - defaultOffset offset <? expected
   then Thrown (ESolana
          (SOLANA_ERROR__CODECS__INVALID_BYTE_LENGTH
             (byteLength bytes - defaultOffset offset) codecDescription expected))
   else Ok tt, bytes).
Proof.
  unfold assertByteArrayHasEnoughBytesForCodec; simpl.
  destruct (byteLength bytes - defaultOffset offset <? expected); reflexivity.
Qed.

(** [C4] For a safe-integer offset and expected length,
    [assertByteArrayHasEnoughBytesForCodec] computes
    [available = bytes.length - offset] (offset 0 when omitted) and throws
    [INVALID_BYTE_LENGTH] carrying the description, the expected length and
    [available] exactly when [available < expected]; otherwise it returns
    normally.  With expected length 4 on any five bytes it throws at offset 2
    (available 3) and returns at offset 1 (available 4). *)
Theorem assertByteArrayHasEnoughBytesForCodec_throws_iff :
  forall (codecDescription : string) (expected : Z) (bytes : Uint8Array)
         (offset : option Offset),
    isSafeInteger (defaultOffset offset) ->
    isSafeInteger expected ->
    let available := byteLength bytes - defaultOffset offset in
    let outcome :=
      fst (run (assertByteArrayHasEnoughBytesForCodec
                  codecDescription expected offset) bytes) in
    (outcome = Thrown (ESolana (SOLANA_ERROR__CODECS__INVALID_BYTE_LENGTH
                                  available codecDescription expected))
     <-> available < expected) /\
    (outcome = Ok tt <-> expected <= available) /\
    (forall b0 b1 b2 b3 b4 : byte,
       fst (run (assertByteArrayHasEnoughBytesForCodec "x" 4 (Some 2))
                [b0; b1; b2; b3; b4]) =
       Thrown (ESolana (SOLANA_ERROR__CODECS__INVALID_BYTE_LENGTH 3 "x" 4)) /\
       fst (run (assertByteArrayHasEnoughBytesForCodec "x" 4 (Some 1))
                [b0; b1; b2; b3; b4]) = Ok tt).
Proof.
  intros d expected bytes offset _ _ available outcome.
  subst outcome. rewrite run_assertByteArrayHasEnoughBytesForCodec.
  fold available. simpl fst.
  destruct (available <? expected) eqn:E.
  - apply Z.ltb_lt in E. repeat split; auto; try discriminate; try lia.
  - apply Z.ltb_ge in E. repeat split; auto; try discriminate; try lia.
Qed.

Lemma assertByteArrayHasEnoughBytesForCodec_throws_iff_witness :
  let bytes := [x01; x02; x03; x04; x05] in
  let available := byteLength bytes - defaultOffset (Some 2) in
  let outcome :=
    fst (run (assertByteArrayHasEnoughBytesForCodec "x" 4 (Some 2)) bytes) in
  (outcome = Thrown (ESolana (SOLANA_ERROR__CODECS__INVALID_BYTE_LENGTH
                                available "x" 4))
   <-> available < 4) /\
  (outcome = Ok tt <-> 4 <= available) /\
  (forall b0 b1 b2 b3 b4 : byte,
     fst (run (assertByteArrayHasEnoughBytesForCodec "x" 4 (Some 2))
              [b0; b1; b2; b3; b4]) =
     Thrown (ESolana (SOLANA_ERROR__CODECS__INVALID_BYTE_LENGTH 3 "x" 4)) /\
     fst (run (assertByteArrayHasEnoughBytesForCodec "x" 4 (Some 1))
              [b0; b1; b2; b3; b4]) = Ok tt).
Proof.
  apply (assertByteArrayHasEnoughBytesForCodec_throws_iff
           "x" 4 [x01; x02; x03; x04; x05] (Some 2)).
  - vm_compute. split; discriminate.
  - vm_compute. split; discriminate.
Defined.

(** [C5] [assertByteArrayIsNotEmptyForCodec] throws
    [CANNOT_DECODE_EMPTY_BYTE_ARRAY] carrying the description exactly when
    [bytes.length - offset <= 0] (offset 0 when omitted), and otherwise returns
    normally; either way the array is left as it was.  It throws on the empty
    array at offset 0 and on a non-empty array at the offset equal to its
    length. *)
Theorem assertByteArrayIsNotEmptyForCodec_throws_iff :
  forall (codecDescription : string) (bytes : Uint8Array)
         (offset : option Offset),
    let thrown : Result unit :=
      Thrown (ESolana (SOLANA_ERROR__CODECS__CANNOT_DECODE_EMPTY_BYTE_ARRAY
                         codecDescription)) in
    let outcome :=
      run (assertByteArrayIsNotEmptyForCodec codecDescription offset) bytes in
    (fst outcome = thrown <-> byteLength bytes - defaultOffset offset <= 0) /\
    (fst outcome = Ok tt <-> 0 < byteLength bytes - defaultOffset offset) /\
    snd outcome = bytes /\
    fst (run (assertByteArrayIsNotEmptyForCodec codecDescription None) []) =
      thrown /\
    fst (run (assertByteArrayIsNotEmptyForCodec codecDescription (Some 0)) []) =
      thrown /\
    (forall (b : byte),
       fst (run (assertByteArrayIsNotEmptyForCodec codecDescription
                   (Some (byteLength (b :: bytes)))) (b :: bytes)) = thrown).
Proof.
  intros d bytes offset thrown outcome. subst outcome thrown.
  split; [|split; [|split; [|split; [|split]]]].
  - rewrite run_assertByteArrayIsNotEmptyForCodec; cbn [fst].
    destruct (_ <=? 0) eqn:E.
    + apply Z.leb_le in E. split; auto.
    + apply Z.leb_gt in E. split; [discriminate|lia].
  - rewrite run_assertByteArrayIsNotEmptyForCodec; cbn [fst].
    destruct (_ <=? 0) eqn:E.
    + apply Z.leb_le in E. split; [discriminate|lia].
    + apply Z.leb_gt in E. split; auto.
  - rewrite run_assertByteArrayIsNotEmptyForCodec. reflexivity.
  - reflexivity.
  - reflexivity.
  - intros b. rewrite run_assertByteArrayIsNotEmptyForCodec.
    cbn [fst defaultOffset]. rewrite Z.sub_diag. reflexivity.
Qed.

(** [C9] With expected length 0, [assertByteArrayHasEnoughBytesForCodec]
    returns normally whenever the offset is at most the length of the array,
    in particular on the empty array at offset 0, where
    [assertByteArrayIsNotEmptyForCodec] with the same arguments throws. *)
Theorem assertByteArrayHasEnoughBytesForCodec_expected_0 :
  forall (codecDescription : string) (bytes : Uint8Array)
         (offset : option Offset),
    defaultOffset offset <= byteLength bytes ->
    run (assertByteArrayHasEnoughBytesForCodec codecDescription 0 offset) bytes
      = (Ok tt, bytes) /\
    run (assertByteArrayHasEnoughBytesForCodec codecDescription 0 None) []
      = (Ok tt, []) /\
    run (assertByteArrayIsNotEmptyForCodec codecDescription None) []
      = (Thrown (ESolana (SOLANA_ERROR__CODECS__CANNOT_DECODE_EMPTY_BYTE_ARRAY
                            codecDescription)), []).
Proof.
  intros d bytes offset H.
  rewrite run_assertByteArrayHasEnoughBytesForCodec.
  replace (byteLength bytes - defaultOffset offset <? 0) with false
    by (symmetry; apply Z.ltb_ge; lia).
  repeat split.
Qed.

Lemma assertByteArrayHasEnoughBytesForCodec_expected_0_witness :
  run (assertByteArrayHasEnoughBytesForCodec "x" 0 (Some 2)) [x01; x02]
    = (Ok tt, [x01; x02]) /\
  run (assertByteArrayHasEnoughBytesForCodec "x" 0 None) [] = (Ok tt, []) /\
  run (assertByteArrayIsNotEmptyForCodec "x" None) []
    = (Thrown (ESolana (SOLANA_ERROR__CODECS__CANNOT_DECODE_EMPTY_BYTE_ARRAY "x")),
       []).
Proof.
  apply (assertByteArrayHasEnoughBytesForCodec_expected_0
           "x" [x01; x02] (Some 2)).
  vm_compute. discriminate.
Defined.

(** [C10] For every description, array and integer offset (given or
    omitted), [assertByteArrayIsNotEmptyForCodec] throws if and only if
    [assertByteArrayHasEnoughBytesForCodec] with expected length 1 throws;
    past the end of the array, where the available length is negative, both
    throw. *)
Theorem assertByteArrayIsNotEmptyForCodec_iff_expected_1 :
  forall (codecDescription : string) (bytes : Uint8Array)
         (offset : option Offset),
    (throwsOn (assertByteArrayIsNotEmptyForCodec codecDescription offset) bytes
     <->
     throwsOn (assertByteArrayHasEnoughBytesForCodec codecDescription 1 offset)
              bytes) /\
    (byteLength bytes - defaultOffset offset < 0 ->
     throwsOn (assertByteArrayIsNotEmptyForCodec codecDescription offset) bytes /\
     throwsOn (assertByteArrayHasEnoughBytesForCodec codecDescription 1 offset)
              bytes).
Proof.
  intros d bytes offset. unfold throwsOn.
  rewrite run_assertByteArrayIsNotEmptyForCodec,
          run_assertByteArrayHasEnoughBytesForCodec.
  simpl fst.
  destruct (_ <=? 0) eqn:E1; destruct (_ <? 1) eqn:E2;
    try apply Z.leb_le in E1; try apply Z.leb_gt in E1;
    try apply Z.ltb_lt in E2; try apply Z.ltb_ge in E2; try lia.
  - split; [split|]; eauto.
  - split; [split; intros [e He]; discriminate|]. lia.
Qed.

(** ** The factories *)

Lemma createEncoder_size {T : Type} (encoder : EncoderInput.t T) :
  Encoder.size (props (createEncoder encoder)) = EncoderInput.size encoder.
Proof. simpl. destruct (EncoderInput.size encoder); reflexivity. Qed.

Lemma createDecoder_size {T : Type} (decoder : DecoderInput.t T) :
  Decoder.size (props (createDecoder decoder)) = DecoderInput.size decoder.
Proof. simpl. destruct (DecoderInput.size decoder); reflexivity. Qed.

Lemma createCodec_size {From To : Type} (codec : CodecInput.t From To) :
  Codec.size (props (createCodec codec)) = CodecInput.size codec.
Proof. simpl. destruct (CodecInput.size codec); reflexivity. Qed.

(** The [encode] of [createCodec] is the [encode] of [createEncoder] on the
    same size descriptor and [write]; the [decode] of [createCodec] is the
    [decode] of [createDecoder] on the same [read]. *)
Lemma createCodec_encode {From To : Type} (codec : CodecInput.t From To)
  (value : From) :
  Codec.encode (props (createCodec codec)) value =
  Encoder.encode
    (props (createEncoder
              (EncoderInput.mk (CodecInput.size codec) (CodecInput.write codec))))
    value.
Proof. reflexivity. Qed.

Lemma createCodec_decode {From To : Type} (codec : CodecInput.t From To)
  (size : DecoderSize.t) (offset : option Offset) :
  Codec.decode (props (createCodec codec)) offset =
  Decoder.decode
    (props (createDecoder (DecoderInput.mk size (CodecInput.read codec))))
    offset.
Proof. reflexivity. Qed.

(** What [encode] does, step by step: allocate, run [write] at offset 0, hand
    back the array. *)
Lemma createEncoder_encode_steps {T : Type} (encoder : EncoderInput.t T)
  (value : T) :
  let n := getEncodedSize value (EncoderInput.size encoder) in
  match newUint8Array n with
  | Thrown e => Encoder.encode (props (createEncoder encoder)) value = Thrown e
  | Ok zeros =>
      zeros = repeat x00 (Z.to_nat n) /\
      match run (EncoderInput.write encoder value 0) zeros with
      | (Thrown e, _) =>
          Encoder.encode (props (createEncoder encoder)) value = Thrown e
      | (Ok _, filled) =>
          Encoder.encode (props (createEncoder encoder)) value = Ok filled /\
          byteLength filled = n
      end
  end.
Proof.
  intros n. subst n. simpl.
  destruct (newUint8Array _) as [zeros|e] eqn:Ealloc; [|reflexivity].
  apply newUint8Array_Ok in Ealloc as [Hz Hlen].
  split; [exact Hz|].
  pose proof (run_length (EncoderInput.write encoder value 0) zeros) as Hrun.
  destruct (run _ zeros) as [[next|e] filled]; [|reflexivity].
  split; [reflexivity|]. simpl in Hrun. congruence.
Qed.

(** [encode] returns only arrays of the computed size. *)
Lemma createEncoder_encode_length {T : Type} (encoder : EncoderInput.t T)
  (value : T) (bytes : Uint8Array) :
  Encoder.encode (props (createEncoder encoder)) value = Ok bytes ->
  byteLength bytes = getEncodedSize value (EncoderInput.size encoder).
Proof.
  intros H. pose proof (createEncoder_encode_steps encoder value) as S.
  cbv zeta in S.
  destruct (newUint8Array _) as [zeros|e]; [|congruence].
  destruct S as [_ S].
  destruct (run _ zeros) as [[next|e] filled]; [|congruence].
  destruct S as [S L]. congruence.
Qed.

(** [encode] returns whenever the size is a legal array length and [write]
    does not throw on the fresh array. *)
Lemma createEncoder_encode_returns {T : Type} (encoder : EncoderInput.t T)
  (value : T) :
  let n := getEncodedSize value (EncoderInput.size encoder) in
  0 <= n <= MAX_SAFE_INTEGER ->
  ~ throwsOn (EncoderInput.write encoder value 0) (repeat x00 (Z.to_nat n)) ->
  Encoder.encode (props (createEncoder encoder)) value =
  Ok (snd (run (EncoderInput.write encoder value 0) (repeat x00 (Z.to_nat n)))).
Proof.
  intros n Hn Hw. subst n. simpl.
  rewrite (newUint8Array_in_range _ Hn).
  unfold throwsOn in Hw.
  destruct (run _ _) as [[next|e] filled]; [reflexivity|].
  exfalso. apply Hw. exists e. reflexivity.
Qed.

(** [encode] throws only what the allocation or [write] threw. *)
Lemma createEncoder_encode_throws {T : Type} (encoder : EncoderInput.t T)
  (value : T) (e : exn) :
  let n := getEncodedSize value (EncoderInput.size encoder) in
  Encoder.encode (props (createEncoder encoder)) value = Thrown e ->
  (e = ERangeError /\ (n < 0 \/ MAX_SAFE_INTEGER < n)) \/
  (0 <= n <= MAX_SAFE_INTEGER /\
   fst (run (EncoderInput.write encoder value 0) (repeat x00 (Z.to_nat n)))
   = Thrown e).
Proof.
  intros n. subst n. simpl.
  destruct (newUint8Array _) as [zeros|e'] eqn:Ealloc.
  - pose proof Ealloc as Hr. apply newUint8Array_Ok in Ealloc as [-> _].
    destruct (run _ _) as [[next|e'] filled] eqn:Erun; [discriminate|].
    intros H; injection H as <-. right. split; [|reflexivity].
    unfold newUint8Array in Hr.
    destruct ((_ <? 0) || _) eqn:E; [discriminate|].
    apply orb_false_elim in E as [E1 E2].
    apply Z.ltb_ge in E1, E2. lia.
  - intros H; injection H as <-. left.
    now apply newUint8Array_Thrown.
Qed.

(** [C2] With [fixedSize = n], whatever the value and whatever [write] does,
    every array [encode] returns has length exactly [n], for the encoder of
    [createEncoder] and for the codec of [createCodec] alike; and [encode]
    does return an array whenever [n] is a legal array length and [write] does
    not throw on the fresh array. *)
Theorem encode_fixedSize_length :
  forall (From To : Type) (n : Z) (write : WriteFn From) (read : ReadFn To)
         (v : From),
    let encoder :=
      props (createEncoder (EncoderInput.mk (EncoderSize.FixedSized n) write)) in
    let codec :=
      props (createCodec (CodecInput.mk (EncoderSize.FixedSized n) read write)) in
    (forall bytes, Encoder.encode encoder v = Ok bytes -> byteLength bytes = n) /\
    (forall bytes, Codec.encode codec v = Ok bytes -> byteLength bytes = n) /\
    (0 <= n <= MAX_SAFE_INTEGER ->
     ~ throwsOn (write v 0) (repeat x00 (Z.to_nat n)) ->
     exists bytes,
       Encoder.encode encoder v = Ok bytes /\ Codec.encode codec v = Ok bytes).
Proof.
  intros From To n write read v encoder codec.
  assert (Hsame : Codec.encode codec v = Encoder.encode encoder v)
    by reflexivity.
  split; [|split].
  - intros bytes H.
    apply (createEncoder_encode_length
             (EncoderInput.mk (EncoderSize.FixedSized n) write) v bytes H).
  - intros bytes H. rewrite Hsame in H.
    apply (createEncoder_encode_length
             (EncoderInput.mk (EncoderSize.FixedSized n) write) v bytes H).
  - intros Hn Hw.
    pose proof (createEncoder_encode_returns
                  (EncoderInput.mk (EncoderSize.FixedSized n) write) v Hn Hw)
      as Hret.
    eexists. split; [|rewrite Hsame]; exact Hret.
Qed.

(** [C3] With [fixedSize = null] and size function [variableSize], [encode v]
    computes [variableSize v], allocates that many zero bytes, runs [write v]
    on them at offset 0 and returns the array [write] leaves, whose length is
    [variableSize v]; it throws only if the allocation or [write] throws.  In
    particular, when [variableSize v] is a legal array length and [write] does
    not throw on the fresh array, [encode v] does return an array, of length
    [variableSize v].  The same holds for the encoder of [createEncoder] and
    the codec of [createCodec]. *)
Theorem encode_variableSize_steps :
  forall (From To : Type) (maxSize : option Z) (variableSize : From -> Z)
         (write : WriteFn From) (read : ReadFn To) (v : From),
    let encoder :=
      props (createEncoder
               (EncoderInput.mk (EncoderSize.VariableSized maxSize variableSize)
                                write)) in
    let codec :=
      props (createCodec
               (CodecInput.mk (EncoderSize.VariableSized maxSize variableSize)
                              read write)) in
    match newUint8Array (variableSize v) with
    | Thrown e =>
        Encoder.encode encoder v = Thrown e /\ Codec.encode codec v = Thrown e
    | Ok zeros =>
        zeros = repeat x00 (Z.to_nat (variableSize v)) /\
        byteLength zeros = variableSize v /\
        match run (write v 0) zeros with
        | (Thrown e, _) =>
            Encoder.encode encoder v = Thrown e /\
            Codec.encode codec v = Thrown e
        | (Ok _, filled) =>
            Encoder.encode encoder v = Ok filled /\
            Codec.encode codec v = Ok filled /\
            byteLength filled = variableSize v
        end
    end /\
    (forall bytes,
       Encoder.encode encoder v = Ok bytes -> byteLength bytes = variableSize v) /\
    (forall bytes,
       Codec.encode codec v = Ok bytes -> byteLength bytes = variableSize v) /\
    (0 <= variableSize v <= MAX_SAFE_INTEGER ->
     ~ throwsOn (write v 0) (repeat x00 (Z.to_nat (variableSize v))) ->
     exists bytes,
       Encoder.encode encoder v = Ok bytes /\
       Codec.encode codec v = Ok bytes /\
       bytes = snd (run (write v 0) (repeat x00 (Z.to_nat (variableSize v)))) /\
       byteLength bytes = variableSize v).
Proof.
  intros From To maxSize variableSize write read v encoder codec.
  assert (Hsame : Codec.encode codec v = Encoder.encode encoder v)
    by reflexivity.
  rewrite Hsame.
  assert (Hlength : forall bytes,
            Encoder.encode encoder v = Ok bytes ->
            byteLength bytes = variableSize v).
  { intros bytes H.
    apply (createEncoder_encode_length
             (EncoderInput.mk (EncoderSize.VariableSized maxSize variableSize)
                              write) v bytes H). }
  split; [|split; [exact Hlength|split; [exact Hlength|]]];
    [|intros Hn Hw;
      pose proof (createEncoder_encode_returns
                    (EncoderInput.mk
                       (EncoderSize.VariableSized maxSize variableSize) write)
                    v Hn Hw) as Hret;
      eexists; split; [exact Hret|];
      split; [exact Hret|];
      split; [reflexivity|];
      exact (Hlength _ Hret)].
  pose proof (createEncoder_encode_steps
                (EncoderInput.mk (EncoderSize.VariableSized maxSize variableSize)
                                 write) v) as S.
  cbv zeta in S. cbn [getEncodedSize EncoderInput.size EncoderInput.write] in S.
  fold encoder in S.
  destruct (newUint8Array (variableSize v)) as [zeros|e] eqn:Ealloc.
  - destruct S as [Hz S]. apply newUint8Array_Ok in Ealloc as [_ Hlen].
    split; [exact Hz|]. split; [exact Hlen|].
    destruct (run (write v 0) zeros) as [[next|e] filled].
    + destruct S as [S L]. auto.
    + auto.
  - auto.
Qed.

(** [C6] [decode bytes offset] is the first component of [read bytes offset],
    the next offset being dropped, and leaves the array as [read] leaves it;
    an omitted offset is 0; and [decode] throws exactly the exception [read]
    throws, when [read] throws.  This holds for the decoder of [createDecoder]
    and for the codec of [createCodec]. *)
Theorem decode_is_read_value :
  forall (From To : Type) (dsize : DecoderSize.t) (esize : EncoderSize.t From)
         (read : ReadFn To) (write : WriteFn From)
         (bytes : Uint8Array) (offset : option Offset),
    let decoder := props (createDecoder (DecoderInput.mk dsize read)) in
    let codec := props (createCodec (CodecInput.mk esize read write)) in
    let r := run (read (match offset with Some o => o | None => 0 end)) bytes in
    run (Decoder.decode decoder offset) bytes = (result_map fst (fst r), snd r) /\
    run (Codec.decode codec offset) bytes = (result_map fst (fst r), snd r) /\
    Decoder.decode decoder None = Decoder.decode decoder (Some 0) /\
    Codec.decode codec None = Codec.decode codec (Some 0) /\
    (forall e, fst (run (Decoder.decode decoder offset) bytes) = Thrown e
               <-> fst r = Thrown e) /\
    (forall e, fst (run (Codec.decode codec offset) bytes) = Thrown e
               <-> fst r = Thrown e).
Proof.
  intros From To dsize esize read write bytes offset decoder codec r.
  assert (Hd : run (Decoder.decode decoder offset) bytes
               = (result_map fst (fst r), snd r)).
  { subst decoder r. cbn [createDecoder Object_freeze objectLiteral props
                          Decoder.decode DecoderInput.read].
    rewrite run_bind. unfold nullishOr0.
    destruct (run (read _) bytes) as [[[w next]|e] after]; reflexivity. }
  assert (Hc : Codec.decode codec offset = Decoder.decode decoder offset)
    by reflexivity.
  rewrite Hc, Hd. cbn [fst].
  repeat split; try reflexivity.
  - destruct (fst r); simpl; congruence.
  - destruct (fst r); simpl; congruence.
  - destruct (fst r); simpl; congruence.
  - destruct (fst r); simpl; congruence.
Qed.

(** [C7] The object each factory returns carries the size-descriptor fields
    of its argument unchanged ([fixedSize]; [maxSize]; and [variableSize] for
    encoders and codecs) and the very [write] and [read] it was given. *)
Theorem factories_reexpose_fields :
  (forall (T : Type) (encoder : EncoderInput.t T),
     let out := props (createEncoder encoder) in
     EncoderSize.fixedSize (Encoder.size out)
       = EncoderSize.fixedSize (EncoderInput.size encoder) /\
     EncoderSize.maxSize (Encoder.size out)
       = EncoderSize.maxSize (EncoderInput.size encoder) /\
     EncoderSize.variableSize (Encoder.size out)
       = EncoderSize.variableSize (EncoderInput.size encoder) /\
     Encoder.write out = EncoderInput.write encoder) /\
  (forall (T : Type) (decoder : DecoderInput.t T),
     let out := props (createDecoder decoder) in
     DecoderSize.fixedSize (Decoder.size out)
       = DecoderSize.fixedSize (DecoderInput.size decoder) /\
     DecoderSize.maxSize (Decoder.size out)
       = DecoderSize.maxSize (DecoderInput.size decoder) /\
     Decoder.read out = DecoderInput.read decoder) /\
  (forall (From To : Type) (codec : CodecInput.t From To),
     let out := props (createCodec codec) in
     EncoderSize.fixedSize (Codec.size out)
       = EncoderSize.fixedSize (CodecInput.size codec) /\
     EncoderSize.maxSize (Codec.size out)
       = EncoderSize.maxSize (CodecInput.size codec) /\
     EncoderSize.variableSize (Codec.size out)
       = EncoderSize.variableSize (CodecInput.size codec) /\
     Codec.read out = CodecInput.read codec /\
     Codec.write out = CodecInput.write codec).
Proof.
  split; [|split].
  - intros T encoder out. subst out. rewrite createEncoder_size.
    repeat split.
  - intros T decoder out. subst out. rewrite createDecoder_size.
    repeat split.
  - intros From To codec out. subst out. rewrite createCodec_size.
    repeat split.
Qed.

(** The factories at work on the concrete codecs. *)

Example booleanCodec_encode_true :
  Codec.encode (props (createCodec booleanCodecInput)) true = Ok [x01].
Proof. reflexivity. Qed.

Example booleanCodec_decode_at_1 :
  run (Codec.decode (props (createCodec booleanCodecInput)) (Some 1)) [x00; x01]
  = (Ok true, [x00; x01]).
Proof. reflexivity. Qed.

Example booleanCodec_decode_empty :
  run (Codec.decode (props (createCodec booleanCodecInput)) None) []
  = (Thrown (ESolana
       (SOLANA_ERROR__CODECS__CANNOT_DECODE_EMPTY_BYTE_ARRAY "boolean")), []).
Proof. reflexivity. Qed.

Example booleansEncoder_encode :
  Encoder.encode (props (createEncoder booleansEncoderInput))
                 [true; false; true]
  = Ok [x01; x00; x01].
Proof. reflexivity. Qed.

(** A [write] that stores past the computed size does not lengthen the
    array: the stray store is dropped. *)
Example encode_overwriting_write :
  Encoder.encode
    (props (createEncoder
              (EncoderInput.mk (EncoderSize.FixedSized 2) booleansWrite)))
    [true; true; true]
  = Ok [x01; x01].
Proof. reflexivity. Qed.

(** A negative size makes the allocation, hence [encode], throw. *)
Example encode_negative_size :
  Encoder.encode
    (props (createEncoder
              (EncoderInput.mk (EncoderSize.FixedSized (-1)) booleanWrite)))
    true
  = Thrown ERangeError.
Proof. reflexivity. Qed.

(** ** Frozen objects *)

Lemma alter_frozen {A : Type} (strict : bool) (upd : A -> A) (o : JsObject A) :
  frozen o = true ->
  alter strict upd o = ((if strict then Thrown ETypeError else Ok tt), o).
Proof. intros H. unfold alter. now rewrite H. Qed.

(** By contrast an object literal that was not frozen takes the change. *)
Lemma alter_objectLiteral {A : Type} (strict : bool) (upd : A -> A) (a : A) :
  alter strict upd (objectLiteral a) = (Ok tt, objectLiteral (upd a)).
Proof. reflexivity. Qed.

Lemma alterAll_frozen {A : Type} (strict : bool) (upds : list (A -> A)) :
  forall o : JsObject A, frozen o = true -> alterAll strict upds o = o.
Proof.
  induction upds as [|upd rest IH]; intros o H; simpl.
  - reflexivity.
  - rewrite (alter_frozen strict upd o H). simpl. now apply IH.
Qed.

Lemma Object_freeze_frozen {A : Type} (o : JsObject A) :
  frozen (Object_freeze o) = true.
Proof. reflexivity. Qed.

(** [C8] The objects the three factories return are frozen: after any series
    of attempts to alter their properties, in strict-mode code or not, the
    object is the one the factory returned, so its [encode], [decode],
    [write], [read] and size fields behave as before. *)
Theorem factories_return_frozen_objects :
  forall (strict : bool),
    (forall (T : Type) (encoder : EncoderInput.t T)
            (upds : list (Encoder.t T -> Encoder.t T)),
       let o := createEncoder encoder in
       let o' := alterAll strict upds o in
       o' = o /\
       (forall v, Encoder.encode (props o') v = Encoder.encode (props o) v) /\
       (forall v offset bytes,
          run (Encoder.write (props o') v offset) bytes
          = run (Encoder.write (props o) v offset) bytes) /\
       Encoder.size (props o') = Encoder.size (props o)) /\
    (forall (T : Type) (decoder : DecoderInput.t T)
            (upds : list (Decoder.t T -> Decoder.t T)),
       let o := createDecoder decoder in
       let o' := alterAll strict upds o in
       o' = o /\
       (forall offset bytes,
          run (Decoder.decode (props o') offset) bytes
          = run (Decoder.decode (props o) offset) bytes) /\
       (forall offset bytes,
          run (Decoder.read (props o') offset) bytes
          = run (Decoder.read (props o) offset) bytes) /\
       Decoder.size (props o') = Decoder.size (props o)) /\
    (forall (From To : Type) (codec : CodecInput.t From To)
            (upds : list (Codec.t From To -> Codec.t From To)),
       let o := createCodec codec in
       let o' := alterAll strict upds o in
       o' = o /\
       (forall v, Codec.encode (props o') v = Codec.encode (props o) v) /\
       (forall offset bytes,
          run (Codec.decode (props o') offset) bytes
          = run (Codec.decode (props o) offset) bytes) /\
       (forall v offset bytes,
          run (Codec.write (props o') v offset) bytes
          = run (Codec.write (props o) v offset) bytes) /\
       (forall offset bytes,
          run (Codec.read (props o') offset) bytes
          = run (Codec.read (props o) offset) bytes) /\
       Codec.size (props o') = Codec.size (props o)).
Proof.
  intros strict. split; [|split].
  - intros T encoder upds o o'.
    assert (E : o' = o)
      by (subst o' o; apply alterAll_frozen, Object_freeze_frozen).
    rewrite E. repeat split.
  - intros T decoder upds o o'.
    assert (E : o' = o)
      by (subst o' o; apply alterAll_frozen, Object_freeze_frozen).
    rewrite E. repeat split.
  - intros From To codec upds o o'.
    assert (E : o' = o)
      by (subst o' o; apply alterAll_frozen, Object_freeze_frozen).
    rewrite E. repeat split.
Qed.

(** ** Round trip *)

Section RoundTrip.
Variables From To : Type.
Variable codec : CodecInput.t From To.
Variable valid : From -> Prop.
Variable equiv : From -> To -> Prop.
Hypothesis paired : consistentPair codec valid equiv.

(** [C1] For a codec built by [createCodec] from a size descriptor and a
    consistent [write]/[read] pair, and every valid [v], [encode v] returns an
    array and [decode] of that array (offset omitted) returns a value
    equivalent to [v]. *)
Theorem createCodec_round_trip :
  forall v : From, valid v ->
    exists (bytes : Uint8Array) (w : To) (after : Uint8Array),
      Codec.encode (props (createCodec codec)) v = Ok bytes /\
      run (Codec.decode (props (createCodec codec)) None) bytes = (Ok w, after) /\
      equiv v w.
Proof.
  intros v Hv.
  destruct (paired v Hv)
    as (zeros & next & filled & Halloc & Hwrite & w & next' & after & Hread & Heq).
  exists filled, w, after. split; [|split].
  - simpl. rewrite Halloc, Hwrite. reflexivity.
  - cbn [createCodec Object_freeze objectLiteral props Codec.decode].
    rewrite run_bind. cbn [nullishOr0]. rewrite Hread. reflexivity.
  - exact Heq.
Qed.
End RoundTrip.

Lemma createCodec_round_trip_witness :
  exists (bytes : Uint8Array) (w : bool) (after : Uint8Array),
    Codec.encode (props (createCodec booleanCodecInput)) true = Ok bytes /\
    run (Codec.decode (props (createCodec booleanCodecInput)) None) bytes
      = (Ok w, after) /\
    w = true.
Proof.
  apply (createCodec_round_trip bool bool booleanCodecInput
           (fun _ => True) (fun v w => w = v)).
  - intros v _. exists [x00], 1.
    destruct v.
    + exists [x01]. repeat split. exists true, 1, [x01]. repeat split.
    + exists [x00]. repeat split. exists false, 1, [x00]. repeat split.
  - exact I.
Defined.

(** * Further properties of the guards and the factories *)

(** ** Indexing *)

Lemma getIndex_in_range (bytes : Uint8Array) (i : Z) :
  0 <= i < byteLength bytes -> exists b, getIndex bytes i = Some b.
Proof.
  intros [H0 H1]. unfold getIndex, byteLength in *.
  replace (i <? 0) with false by (symmetry; apply Z.ltb_ge; lia).
  destruct (nth_error bytes (Z.to_nat i)) as [b|] eqn:E; [eauto|].
  apply nth_error_None in E. lia.
Qed.

Lemma getIndex_negative (bytes : Uint8Array) (i : Z) :
  i < 0 -> getIndex bytes i = None.
Proof.
  intros H. unfold getIndex.
  now replace (i <? 0) with true by (symmetry; apply Z.ltb_lt; lia).
Qed.

Lemma nth_error_setNth_other (bytes : Uint8Array) (b : byte) :
  forall n m : nat, n <> m ->
    nth_error (setNth bytes n b) m = nth_error bytes m.
Proof.
  induction bytes as [|x rest IH]; intros [|n] [|m] H; simpl;
    try reflexivity; try congruence.
  apply IH. congruence.
Qed.

Lemma getIndex_setIndex_other (bytes : Uint8Array) (i j : Z) (b : byte) :
  i <> j -> getIndex (setIndex bytes i b) j = getIndex bytes j.
Proof.
  intros H. unfold getIndex, setIndex.
  destruct (j <? 0) eqn:Ej; [reflexivity|].
  destruct (i <? 0) eqn:Ei; [reflexivity|].
  apply Z.ltb_ge in Ej, Ei.
  apply nth_error_setNth_other. lia.
Qed.

Lemma getIndex_zeros (n j : Z) :
  0 <= j < n -> getIndex (repeat x00 (Z.to_nat n)) j = Some x00.
Proof.
  intros [H0 H1]. unfold getIndex.
  replace (j <? 0) with false by (symmetry; apply Z.ltb_ge; lia).
  apply nth_error_repeat. lia.
Qed.

(** A program leaves alone every element outside the range it stores to. *)
Lemma run_frame {A : Type} (p : BufProg A) (lo hi : Z) :
  forall bytes j,
    storesWithin p lo hi -> j < lo \/ hi <= j ->
    getIndex (snd (run p bytes)) j = getIndex bytes j.
Proof.
  induction p as [a|e|k IH|i k IH|i b k IH]; intros bytes j Hs Hj; simpl in *.
  - reflexivity.
  - reflexivity.
  - apply IH; auto.
  - apply IH; auto.
  - destruct Hs as [Hi Hs]. rewrite IH by auto.
    apply getIndex_setIndex_other. lia.
Qed.

(** ** What a passed guard buys *)

(** Once [assertByteArrayHasEnoughBytesForCodec] has returned normally at a
    non-negative offset, each of the [expected] indices from the offset on
    holds a byte: no load among them gives [undefined]. *)
Theorem assertByteArrayHasEnoughBytesForCodec_in_bounds :
  forall (codecDescription : string) (expected : Z) (bytes : Uint8Array)
         (offset : option Offset) (i : Z),
    0 <= defaultOffset offset ->
    fst (run (assertByteArrayHasEnoughBytesForCodec
                codecDescription expected offset) bytes) = Ok tt ->
    defaultOffset offset <= i < defaultOffset offset + expected ->
    exists b, getIndex bytes i = Some b.
Proof.
  intros d expected bytes offset i H0 Hpass Hi.
  rewrite run_assertByteArrayHasEnoughBytesForCodec in Hpass. cbn [fst] in Hpass.
  destruct (_ <? expected) eqn:E; [discriminate|].
  apply Z.ltb_ge in E. apply getIndex_in_range. lia.
Qed.

Lemma assertByteArrayHasEnoughBytesForCodec_in_bounds_witness :
  exists b, getIndex [x0a; x0b; x0c; x0d] 3 = Some b.
Proof.
  apply (assertByteArrayHasEnoughBytesForCodec_in_bounds
           "u16" 2 [x0a; x0b; x0c; x0d] (Some 2) 3).
  - vm_compute. discriminate.
  - reflexivity.
  - simpl. lia.
Defined.

(** Once [assertByteArrayIsNotEmptyForCodec] has returned normally at a
    non-negative offset, the element at that offset exists. *)
Theorem assertByteArrayIsNotEmptyForCodec_in_bounds :
  forall (codecDescription : string) (bytes : Uint8Array)
         (offset : option Offset),
    0 <= defaultOffset offset ->
    fst (run (assertByteArrayIsNotEmptyForCodec codecDescription offset) bytes)
      = Ok tt ->
    exists b, getIndex bytes (defaultOffset offset) = Some b.
Proof.
  intros d bytes offset H0 Hpass.
  rewrite run_assertByteArrayIsNotEmptyForCodec in Hpass. cbn [fst] in Hpass.
  destruct (_ <=? 0) eqn:E; [discriminate|].
  apply Z.leb_gt in E. apply getIndex_in_range. lia.
Qed.

Lemma assertByteArrayIsNotEmptyForCodec_in_bounds_witness :
  exists b, getIndex [x0a; x0b] (defaultOffset None) = Some b.
Proof.
  apply (assertByteArrayIsNotEmptyForCodec_in_bounds "u8" [x0a; x0b] None).
  - vm_compute. discriminate.
  - reflexivity.
Defined.

(** Neither guard looks at the sign of the offset.  At a negative offset
    [assertByteArrayIsNotEmptyForCodec] returns normally on every array, the
    empty one included, and [assertByteArrayHasEnoughBytesForCodec] returns
    normally on every array for an expected length up to the distance below
    zero, although the element at that offset does not exist. *)
Theorem guards_accept_negative_offset :
  forall (codecDescription : string) (bytes : Uint8Array) (offset : Offset),
    offset < 0 ->
    run (assertByteArrayIsNotEmptyForCodec codecDescription (Some offset)) bytes
      = (Ok tt, bytes) /\
    (forall expected, expected <= - offset ->
       run (assertByteArrayHasEnoughBytesForCodec
              codecDescription expected (Some offset)) bytes = (Ok tt, bytes)) /\
    getIndex bytes offset = None.
Proof.
  intros d bytes offset Hneg.
  assert (Hlen : 0 <= byteLength bytes) by (unfold byteLength; lia).
  split; [|split].
  - rewrite run_assertByteArrayIsNotEmptyForCodec. cbn [defaultOffset].
    replace (byteLength bytes - offset <=? 0) with false
      by (symmetry; apply Z.leb_gt; lia).
    reflexivity.
  - intros expected He.
    rewrite run_assertByteArrayHasEnoughBytesForCodec. cbn [defaultOffset].
    replace (byteLength bytes - offset <? expected) with false
      by (symmetry; apply Z.ltb_ge; lia).
    reflexivity.
  - now apply getIndex_negative.
Qed.

Lemma guards_accept_negative_offset_witness :
  run (assertByteArrayIsNotEmptyForCodec "u8" (Some (-1))) [] = (Ok tt, []) /\
  (forall expected, expected <= - (-1) ->
     run (assertByteArrayHasEnoughBytesForCodec "u8" expected (Some (-1))) []
       = (Ok tt, [])) /\
  getIndex [] (-1) = None.
Proof.
  apply (guards_accept_negative_offset "u8" [] (-1)).
  reflexivity.
Defined.

(** A guard that passes keeps passing when less is asked of it: a smaller
    expected length, an earlier offset, or both. *)
Theorem assertByteArrayHasEnoughBytesForCodec_monotone :
  forall (description description' : string) (expected expected' : Z)
         (offset offset' : option Offset) (bytes : Uint8Array),
    fst (run (assertByteArrayHasEnoughBytesForCodec description expected offset)
             bytes) = Ok tt ->
    expected' <= expected ->
    defaultOffset offset' <= defaultOffset offset ->
    fst (run (assertByteArrayHasEnoughBytesForCodec
                description' expected' offset') bytes) = Ok tt.
Proof.
  intros d d' expected expected' offset offset' bytes Hpass He Ho.
  rewrite run_assertByteArrayHasEnoughBytesForCodec in *. cbn [fst] in *.
  destruct (_ <? expected) eqn:E; [discriminate|].
  apply Z.ltb_ge in E.
  replace (byteLength bytes - defaultOffset offset' <? expected') with false
    by (symmetry; apply Z.ltb_ge; lia).
  reflexivity.
Qed.

Lemma assertByteArrayHasEnoughBytesForCodec_monotone_witness :
  fst (run (assertByteArrayHasEnoughBytesForCodec "u16" 2 (Some 1))
           [x0a; x0b; x0c; x0d; x0e]) = Ok tt.
Proof.
  apply (assertByteArrayHasEnoughBytesForCodec_monotone
           "u32" "u16" 4 2 (Some 1) (Some 1) [x0a; x0b; x0c; x0d; x0e]).
  - reflexivity.
  - lia.
  - simpl. lia.
Defined.

(** The two guards one after the other, as a [read] calls them, at a
    safe-integer offset and expected length: nothing
    available gives the empty-array error of the first guard, never the
    length error; something but too little gives the length error with the
    available and the expected length; otherwise both pass.  The array is
    left as it was. *)
Theorem guards_in_sequence :
  forall (description description' : string) (expected : Z)
         (offset : option Offset) (bytes : Uint8Array),
    isSafeInteger (defaultOffset offset) ->
    isSafeInteger expected ->
    let available := byteLength bytes - defaultOffset offset in
    run (_ <- assertByteArrayIsNotEmptyForCodec description offset ;;
         assertByteArrayHasEnoughBytesForCodec description' expected offset)
        bytes
    = (if available <=? 0
       then Thrown (ESolana
              (SOLANA_ERROR__CODECS__CANNOT_DECODE_EMPTY_BYTE_ARRAY description))
       else if available <? expected
       then Thrown (ESolana
              (SOLANA_ERROR__CODECS__INVALID_BYTE_LENGTH
                 available description' expected))
       else Ok tt,
       bytes).
Proof.
  intros d d' expected offset bytes _ _ available.
  rewrite run_bind, run_assertByteArrayIsNotEmptyForCodec. fold available.
  destruct (available <=? 0); [reflexivity|].
  rewrite run_assertByteArrayHasEnoughBytesForCodec. fold available.
  reflexivity.
Qed.

Lemma guards_in_sequence_witness :
  run (_ <- assertByteArrayIsNotEmptyForCodec "u32" (Some 1) ;;
       assertByteArrayHasEnoughBytesForCodec "u32" 4 (Some 1))
      [x0a; x0b; x0c]
  = (Thrown (ESolana (SOLANA_ERROR__CODECS__INVALID_BYTE_LENGTH 2 "u32" 4)),
     [x0a; x0b; x0c]).
Proof.
  apply (guards_in_sequence "u32" "u32" 4 (Some 1) [x0a; x0b; x0c]).
  - vm_compute. split; discriminate.
  - vm_compute. split; discriminate.
Defined.

(** ** What [encode] returns *)

(** [encode] never looks at the offset [write] returns: changing what [write]
    reports as the next offset, by any function of the value and the offset,
    changes nothing in what [encode] returns or throws. *)
Theorem createEncoder_encode_ignores_next_offset :
  forall (T : Type) (encoder : EncoderInput.t T)
         (report : T -> Offset -> Offset) (v : T),
    Encoder.encode
      (props (createEncoder
                (EncoderInput.mk (EncoderInput.size encoder)
                   (fun value offset =>
                      next <- EncoderInput.write encoder value offset ;;
                      Ret (report value next)))))
      v
    = Encoder.encode (props (createEncoder encoder)) v.
Proof.
  intros T encoder report v.
  cbn [createEncoder Object_freeze objectLiteral props Encoder.encode
       EncoderInput.size EncoderInput.write].
  destruct (newUint8Array _) as [zeros|e]; [|reflexivity].
  rewrite run_bind.
  destruct (run (EncoderInput.write encoder v 0) zeros) as [[next|e] filled];
    reflexivity.
Qed.

(** Bytes [write] does not store to are zero in the encoding: if every store
    of [write v] at offset 0 lands in [lo, hi), each element of [encode v]
    outside that range is 0. *)
Theorem createEncoder_encode_untouched_bytes_zero :
  forall (T : Type) (encoder : EncoderInput.t T) (v : T) (lo hi : Z)
         (bytes : Uint8Array) (j : Z),
    storesWithin (EncoderInput.write encoder v 0) lo hi ->
    Encoder.encode (props (createEncoder encoder)) v = Ok bytes ->
    0 <= j < byteLength bytes ->
    j < lo \/ hi <= j ->
    getIndex bytes j = Some x00.
Proof.
  intros T encoder v lo hi bytes j Hs Henc Hj Hout.
  pose proof (createEncoder_encode_steps encoder v) as S. cbv zeta in S.
  destruct (newUint8Array _) as [zeros|e]; [|congruence].
  destruct S as [Hz S].
  pose proof (run_frame (EncoderInput.write encoder v 0) lo hi zeros j Hs Hout)
    as Hframe.
  destruct (run _ zeros) as [[next|e] filled]; [|congruence].
  destruct S as [S Hlen]. cbn [snd] in Hframe.
  assert (filled = bytes) by congruence. subst filled.
  rewrite Hframe, Hz. apply getIndex_zeros. lia.
Qed.

Lemma createEncoder_encode_untouched_bytes_zero_witness :
  getIndex [x01; x00; x00] 2 = Some x00.
Proof.
  apply (createEncoder_encode_untouched_bytes_zero bool
           (EncoderInput.mk (EncoderSize.FixedSized 3) booleanWrite)
           true 0 1 [x01; x00; x00] 2).
  - simpl. split; [lia|exact I].
  - reflexivity.
  - vm_compute. split; [discriminate|reflexivity].
  - right. lia.
Defined.

(** [maxSize] is never enforced: when [variableSize v] exceeds the declared
    [maxSize], [encode v] still returns an array of [variableSize v] bytes,
    longer than [maxSize]. *)
Theorem createEncoder_encode_exceeds_maxSize :
  forall (T : Type) (maxSize : Z) (variableSize : T -> Z) (write : WriteFn T)
         (v : T),
    maxSize < variableSize v ->
    0 <= variableSize v <= MAX_SAFE_INTEGER ->
    ~ throwsOn (write v 0) (repeat x00 (Z.to_nat (variableSize v))) ->
    exists bytes,
      Encoder.encode
        (props (createEncoder
                  (EncoderInput.mk
                     (EncoderSize.VariableSized (Some maxSize) variableSize)
                     write))) v = Ok bytes /\
      byteLength bytes = variableSize v /\
      maxSize < byteLength bytes.
Proof.
  intros T maxSize variableSize write v Hmax Hn Hw.
  pose proof (createEncoder_encode_returns
                (EncoderInput.mk
                   (EncoderSize.VariableSized (Some maxSize) variableSize) write)
                v Hn Hw) as Hret.
  eexists. split; [exact Hret|].
  pose proof (createEncoder_encode_length _ _ _ Hret) as Hlen.
  cbn [getEncodedSize EncoderInput.size] in Hlen.
  split; [exact Hlen|].
  eapply Z.lt_le_trans; [exact Hmax|].
  apply Z.eq_le_incl. symmetry. exact Hlen.
Qed.

Lemma createEncoder_encode_exceeds_maxSize_witness :
  exists bytes,
    Encoder.encode
      (props (createEncoder
                (EncoderInput.mk
                   (EncoderSize.VariableSized (Some 2)
                      (fun value : list bool => Z.of_nat (List.length value)))
                   booleansWrite))) [true; false; true] = Ok bytes /\
    byteLength bytes = Z.of_nat (List.length [true; false; true]) /\
    2 < byteLength bytes.
Proof.
  apply (createEncoder_encode_exceeds_maxSize (list bool) 2
           (fun value => Z.of_nat (List.length value)) booleansWrite
           [true; false; true]).
  - reflexivity.
  - vm_compute. split; discriminate.
  - intros [e H]. vm_compute in H. discriminate.
Defined.

(** ** The codec against the encoder and the decoder made apart *)

(** The codec [createCodec] makes encodes as the encoder [createEncoder] makes
    from the same size descriptor and [write], and decodes as the decoder
    [createDecoder] makes from the same [read], whatever the decoder's size
    descriptor; its [write], [read] and size are theirs too. *)
Theorem createCodec_agrees_with_encoder_and_decoder :
  forall (From To : Type) (codec : CodecInput.t From To)
         (dsize : DecoderSize.t),
    let c := props (createCodec codec) in
    let e := props (createEncoder
                      (EncoderInput.mk (CodecInput.size codec)
                                       (CodecInput.write codec))) in
    let d := props (createDecoder
                      (DecoderInput.mk dsize (CodecInput.read codec))) in
    (forall v, Codec.encode c v = Encoder.encode e v) /\
    (forall offset bytes,
       run (Codec.decode c offset) bytes = run (Decoder.decode d offset) bytes) /\
    Codec.write c = Encoder.write e /\
    Codec.read c = Decoder.read d /\
    Codec.size c = Encoder.size e.
Proof.
  intros From To codec dsize c e d. repeat split.
Qed.

(** An encoder and a decoder made apart from a consistent [write]/[read]
    pair round-trip like the codec: for every valid [v], [encode v] of the
    encoder returns an array from which [decode] of the decoder, whatever size
    descriptor it was given, reads a value equivalent to [v]. *)
Theorem createEncoder_createDecoder_round_trip :
  forall (From To : Type) (codec : CodecInput.t From To)
         (valid : From -> Prop) (equiv : From -> To -> Prop)
         (dsize : DecoderSize.t) (v : From),
    consistentPair codec valid equiv ->
    valid v ->
    exists (bytes : Uint8Array) (w : To) (after : Uint8Array),
      Encoder.encode
        (props (createEncoder
                  (EncoderInput.mk (CodecInput.size codec)
                                   (CodecInput.write codec)))) v = Ok bytes /\
      run (Decoder.decode
             (props (createDecoder
                       (DecoderInput.mk dsize (CodecInput.read codec)))) None)
          bytes = (Ok w, after) /\
      equiv v w.
Proof.
  intros From To codec valid equiv dsize v Hpair Hv.
  destruct (Hpair v Hv)
    as (zeros & next & filled & Halloc & Hwrite & w & next' & after & Hread & Heq).
  exists filled, w, after. split; [|split].
  - cbn [createEncoder Object_freeze objectLiteral props Encoder.encode
         EncoderInput.size EncoderInput.write].
    rewrite Halloc, Hwrite. reflexivity.
  - cbn [createDecoder Object_freeze objectLiteral props Decoder.decode
         DecoderInput.read].
    rewrite run_bind. cbn [nullishOr0]. rewrite Hread. reflexivity.
  - exact Heq.
Qed.

Lemma createEncoder_createDecoder_round_trip_witness :
  exists (bytes : Uint8Array) (w : bool) (after : Uint8Array),
    Encoder.encode
      (props (createEncoder
                (EncoderInput.mk (CodecInput.size booleanCodecInput)
                                 (CodecInput.write booleanCodecInput)))) false
      = Ok bytes /\
    run (Decoder.decode
           (props (createDecoder
                     (DecoderInput.mk (DecoderSize.VariableSized None)
                        (CodecInput.read booleanCodecInput)))) None)
        bytes = (Ok w, after) /\
    w = false.
Proof.
  apply (createEncoder_createDecoder_round_trip bool bool booleanCodecInput
           (fun _ => True) (fun v w => w = v)
           (DecoderSize.VariableSized None) false).
  - intros v _. exists [x00], 1.
    destruct v.
    + exists [x01]. repeat split. exists true, 1, [x01]. repeat split.
    + exists [x00]. repeat split. exists false, 1, [x00]. repeat split.
  - exact I.
Defined.
